(** * SplineRegressor (spline_wrapper.py): a shallow embedding

    In the estimator's model, Python floats are [Fin q] for a finite value
    [q : Q] (arithmetic on finite values is exact; rounding, overflow, the
    infinities and the sign of zero are not modelled) and [NaN]; this is
    enough for the keys, the shapes and the errors of the grouping step and
    for [fit] and [predict].  The module [Binary64] embeds the grouping step
    again over IEEE-754 binary64 values, with the rounded arithmetic of
    pandas' mean, for the values it computes.  NumPy 1-D arrays are lists.
    Exceptions are values of [exn]; a method call runs in a small
    state/exception monad over the instance. *)

From Stdlib Require Import String.
From Stdlib Require Import QArith Qreduction List Sorting.Sorted Bool ZArith Lia
  Permutation.
From Stdlib Require Floats.SpecFloat.
Import ListNotations.

(** ** Data model *)

Inductive pyfloat : Type :=
| Fin (q : Q)
| NaN.

(** The reasons for which scipy's [UnivariateSpline] rejects its input
    ([validate_input] and the f2py checks of FITPACK's [fpcurf0]). *)
Inductive spline_reject : Type :=
| DegreeOutOfRange     (* not 1 <= k <= 5 *)
| NegativeSmoothing    (* not s >= 0.0 *)
| TooFewPoints.        (* not m > k *)

(** Exceptions that can reach the caller: [ValueError] with its message
    (the length check of the DataFrame constructor, and [predict] on an
    unfitted instance), and [SplineError], whatever the spline routine
    raises. *)
Inductive exn : Type :=
| ValueError (msg : string)
| SplineError (why : spline_reject).

Inductive result (A : Type) : Type :=
| Ok (a : A)
| Err (e : exn).
Arguments Ok {A} a.
Arguments Err {A} e.

(** IEEE equality [a == b]: NaN equals nothing. *)
Definition py_eqb (a b : pyfloat) : bool :=
  match a, b with
  | Fin p, Fin q => Qeq_bool p q
  | _, _ => false
  end.

Definition is_nan (a : pyfloat) : bool :=
  match a with NaN => true | Fin _ => false end.

(** ** [promediar_duplicados]:
    [pd.DataFrame({"X": X, "y": y}).groupby("X", as_index=False).mean()]

    The DataFrame constructor rejects columns of different lengths.  The
    groupby drops NaN keys ([dropna=True]), sorts the keys ([sort=True]) and
    the mean of a group skips NaN values ([skipna]); a group whose values are
    all NaN has mean NaN.  Groups are accumulated in one pass over the rows,
    as a sorted association list from the key to (running sum, count). *)

Definition obs_sum (v : pyfloat) : Q :=
  match v with Fin q => q | NaN => 0 end.

Definition obs_count (v : pyfloat) : nat :=
  match v with Fin _ => 1 | NaN => 0 end.

Fixpoint add_obs (x : Q) (v : pyfloat) (g : list (Q * (Q * nat)))
  : list (Q * (Q * nat)) :=
  match g with
  | [] => [(x, (obs_sum v, obs_count v))]
  | (x', (sm, c)) :: g' =>
      if Qeq_bool x x' then (x', (sm + obs_sum v, (c + obs_count v)%nat)) :: g'
      else if Qle_bool x x' then (x, (obs_sum v, obs_count v)) :: g
      else (x', (sm, c)) :: add_obs x v g'
  end.

Definition group_step (g : list (Q * (Q * nat))) (row : pyfloat * pyfloat)
  : list (Q * (Q * nat)) :=
  match fst row with
  | Fin q => add_obs (Qred q) (snd row) g
  | NaN => g
  end.

Definition groupby_sum (rows : list (pyfloat * pyfloat)) : list (Q * (Q * nat)) :=
  fold_left group_step rows [].

Definition group_mean (acc : Q * nat) : pyfloat :=
  match snd acc with
  | O => NaN
  | c => Fin (Qred (fst acc / inject_Z (Z.of_nat c)))
  end.

Definition promediar_duplicados (X y : list pyfloat)
  : result (list pyfloat * list pyfloat) :=
  if Nat.eqb (length X) (length y) then
    let df := groupby_sum (combine X y) in
    Ok (map (fun e => Fin (fst e)) df, map (fun e => group_mean (snd e)) df)
  else Err (ValueError "All arrays must be of the same length"%string).

(** ** Specification-side notions (used only in statements) *)

Definition group_of (X y : list pyfloat) (key : Q) : list pyfloat :=
  map snd (filter (fun r => py_eqb (fst r) (Fin key)) (combine X y)).

Fixpoint finite_vals (vs : list pyfloat) : list Q :=
  match vs with
  | [] => []
  | Fin q :: vs' => q :: finite_vals vs'
  | NaN :: vs' => finite_vals vs'
  end.

Definition sumQ (qs : list Q) : Q := fold_right Qplus 0 qs.

(** The rows of a group, and the accumulator entry found for a key. *)
Definition rows_group (rows : list (pyfloat * pyfloat)) (key : Q) : list pyfloat :=
  map snd (filter (fun r => py_eqb (fst r) (Fin key)) rows).

Fixpoint lookup_key (x : Q) (g : list (Q * (Q * nat))) : option (Q * nat) :=
  match g with
  | [] => None
  | (x', a) :: g' => if Qeq_bool x x' then Some a else lookup_key x g'
  end.

Definition key_lt (a b : Q * (Q * nat)) : Prop := fst a < fst b.

(** A float as IEEE-754 holds it: one representation per value. *)
Definition canonical (a : pyfloat) : Prop :=
  match a with Fin q => Qred q = q | NaN => True end.

(** ** The estimator: [SplineRegressor]

    The spline object built by scipy and its evaluation are left abstract:
    [construct] stands for the FITPACK fit performed once the input checks of
    [UnivariateSpline] have passed, [spline_eval] for calling the fitted
    object on one point. *)

Section Regressor.

Variable spline : Type.
Variable construct : list pyfloat -> list pyfloat -> Q -> Z -> spline.
Variable spline_eval : spline -> pyfloat -> pyfloat.

Record SplineRegressor : Type := mkRegressor {
  s : Q;
  k : Z;
  model : option spline
}.

(** [__init__(self, s=0, k=3)] *)
Definition init (s0 : Q) (k0 : Z) : SplineRegressor :=
  {| s := s0; k := k0; model := None |}.

(** A method call: reads and updates the instance, and may raise.  When it
    raises, the instance keeps the attribute values assigned so far. *)
Definition PyM (A : Type) : Type := SplineRegressor -> result A * SplineRegressor.

Definition ret {A} (a : A) : PyM A := fun self => (Ok a, self).

Definition bind {A B} (c : PyM A) (f : A -> PyM B) : PyM B :=
  fun self =>
    match c self with
    | (Ok a, self') => f a self'
    | (Err e, self') => (Err e, self')
    end.

Definition raise {A} (e : exn) : PyM A := fun self => (Err e, self).

Definition lift {A} (r : result A) : PyM A :=
  match r with Ok a => ret a | Err e => raise e end.

Definition get : PyM SplineRegressor := fun self => (Ok self, self).

Definition put (self : SplineRegressor) : PyM unit := fun _ => (Ok tt, self).

Local Notation "'let*' x ':=' c 'in' f" := (bind c (fun x => f))
  (at level 61, x name, c at next level, right associativity).

(** [UnivariateSpline(x, y, s=s, k=k)]: the input checks of scipy
    ([1 <= k <= 5], [s >= 0.0], and FITPACK's [m > k]), then the fit. *)
Definition UnivariateSpline (x y : list pyfloat) (s0 : Q) (k0 : Z)
  : result spline :=
  if negb ((1 <=? k0)%Z && (k0 <=? 5)%Z) then Err (SplineError DegreeOutOfRange)
  else if negb (Qle_bool 0 s0) then Err (SplineError NegativeSmoothing)
  else if (Z.of_nat (length x) <=? k0)%Z then Err (SplineError TooFewPoints)
  else Ok (construct x y s0 k0).

(** [fit(self, X, y)]: returns [self] (here [tt]); [X.ravel()] is the
    identity on a 1-D array. *)
Definition fit (X y : list pyfloat) : PyM unit :=
  let* d := lift (promediar_duplicados X y) in
  let* self := get in
  let* m := lift (UnivariateSpline (fst d) (snd d) self.(s) self.(k)) in
  put {| s := self.(s); k := self.(k); model := Some m |}.

(** [predict(self, X)] *)
Definition predict (X : list pyfloat) : PyM (list pyfloat) :=
  let* self := get in
  match self.(model) with
  | Some m => ret (map (spline_eval m) X)
  | None => raise (ValueError "This model is not fitted yet."%string)
  end.

End Regressor.

Arguments mkRegressor {spline} s k model.
Arguments s {spline} _.
Arguments k {spline} _.
Arguments model {spline} _.
Arguments init {spline} s0 k0.
Arguments ret {spline A} a self.
Arguments bind {spline A B} c f self.
Arguments raise {spline A} e self.
Arguments lift {spline A} r _.
Arguments get {spline} self.
Arguments put {spline} self _.
Arguments UnivariateSpline {spline} construct x y s0 k0.
Arguments fit {spline} construct X y _.
Arguments predict {spline} spline_eval X _.

(** What the spline routine rejects, in the words of the error conditions. *)
Definition spline_rejects (s0 : Q) (k0 : Z) (m : nat) : Prop :=
  (k0 < 1)%Z \/ (5 < k0)%Z \/ s0 < 0 \/ (Z.of_nat m < k0 + 1)%Z.

(** A group entry built from a single row. *)
Definition row_entry (p : Q * pyfloat) : Q * (Q * nat) :=
  (fst p, (obs_sum (snd p), obs_count (snd p))).

(** A concrete spline for evaluating the estimator: the fitted data itself. *)
Definition data_spline (x y : list pyfloat) (_ : Q) (_ : Z) : list pyfloat * list pyfloat :=
  (x, y).

Definition first_value (m : list pyfloat * list pyfloat) (_ : pyfloat) : pyfloat :=
  hd NaN (snd m).

(** ** [promediar_duplicados] in binary64 arithmetic

    Python floats as IEEE-754 binary64 values: [spec_float] of the Standard
    Library with precision 53 and maximal exponent 1024, signed zeros,
    infinities and NaN included, every operation rounded to nearest, ties to
    even.  The groupby is the one above: NaN keys are dropped, keys are grouped
    by [==] (so -0.0 and 0.0 are one group, held under the first x value of its
    rows, as pandas' hash table keeps it) and sorted by [<].  The mean is the
    one of pandas' [group_mean]: for each group, over its rows in order, the
    non-NaN values are summed with Kahan compensation
    ([y = val - comp; t = sumx + y; comp = t - sumx - y; sumx = t], a NaN
    compensation, which an infinite sum produces, being reset to 0), and the
    mean is [sumx / nobs], NaN when [nobs] is 0. *)

Module Binary64.
Import SpecFloat.

Definition prec : Z := 53.
Definition emax : Z := 1024.

Definition pyfloat : Type := spec_float.

Definition nan : pyfloat := S754_nan.
Definition zero : pyfloat := S754_zero false.

(** [float(n)] for an integer [n]. *)
Definition of_int (n : Z) : pyfloat := binary_normalize prec emax n 0 false.

Definition fadd (a b : pyfloat) : pyfloat := SFadd prec emax a b.
Definition fsub (a b : pyfloat) : pyfloat := SFsub prec emax a b.
Definition fdiv (a b : pyfloat) : pyfloat := SFdiv prec emax a b.

Definition is_nan (a : pyfloat) : bool :=
  match a with S754_nan => true | _ => false end.

(** [a == b] and [a < b]: false as soon as one side is NaN. *)
Definition py_eqb (a b : pyfloat) : bool := SFeqb a b.
Definition py_ltb (a b : pyfloat) : bool := SFltb a b.

(** The state of [group_mean] for one group: [sumx], [compensation] and
    [nobs], all zero at the start. *)
Definition mean_acc : Type := pyfloat * pyfloat * nat.

Definition acc0 : mean_acc := (zero, zero, O).

Definition kahan_step (acc : mean_acc) (val : pyfloat) : mean_acc :=
  let '(sumx, comp, nobs) := acc in
  if is_nan val then acc
  else
    let y := fsub val comp in
    let t := fadd sumx y in
    let c := fsub (fsub t sumx) y in
    (t, (if is_nan c then zero else c), S nobs).

Definition group_mean (acc : mean_acc) : pyfloat :=
  let '(sumx, _, nobs) := acc in
  match nobs with
  | O => nan
  | _ => fdiv sumx (of_int (Z.of_nat nobs))
  end.

Fixpoint add_obs (x v : pyfloat) (g : list (pyfloat * mean_acc))
  : list (pyfloat * mean_acc) :=
  match g with
  | [] => [(x, kahan_step acc0 v)]
  | (x', acc) :: g' =>
      if py_eqb x x' then (x', kahan_step acc v) :: g'
      else if py_ltb x x' then (x, kahan_step acc0 v) :: g
      else (x', acc) :: add_obs x v g'
  end.

Definition group_step (g : list (pyfloat * mean_acc)) (row : pyfloat * pyfloat)
  : list (pyfloat * mean_acc) :=
  if is_nan (fst row) then g else add_obs (fst row) (snd row) g.

Definition groupby_mean (rows : list (pyfloat * pyfloat)) : list (pyfloat * mean_acc) :=
  fold_left group_step rows [].

Definition promediar_duplicados (X y : list pyfloat)
  : result (list pyfloat * list pyfloat) :=
  if Nat.eqb (length X) (length y) then
    let df := groupby_mean (combine X y) in
    Ok (map fst df, map (fun e => group_mean (snd e)) df)
  else Err (ValueError "All arrays must be of the same length"%string).

(** Specification side: the values of a group in row order, the first x
    value of a group, and the mean of [group_mean] over a list of values. *)
Definition rows_group (rows : list (pyfloat * pyfloat)) (key : pyfloat) : list pyfloat :=
  map snd (filter (fun r => py_eqb (fst r) key) rows).

Definition group_of (X y : list pyfloat) (key : pyfloat) : list pyfloat :=
  rows_group (combine X y) key.

Definition first_key (rows : list (pyfloat * pyfloat)) (key : pyfloat) : option pyfloat :=
  option_map fst (find (fun r => py_eqb (fst r) key) rows).

Definition mean_of (vs : list pyfloat) : pyfloat :=
  group_mean (fold_left kahan_step vs acc0).

Fixpoint lookup_key (x : pyfloat) (g : list (pyfloat * mean_acc))
  : option (pyfloat * mean_acc) :=
  match g with
  | [] => None
  | (x', acc) :: g' => if py_eqb x x' then Some (x', acc) else lookup_key x g'
  end.

Definition key_lt (a b : pyfloat * mean_acc) : Prop := py_ltb (fst a) (fst b) = true.

(** The order of [<] on non-NaN values, as a lexicographic order on
    (class, exponent, mantissa): -inf, negative finite, zeros, positive
    finite, +inf. *)
Definition fkey (a : pyfloat) : Z * Z * Z :=
  match a with
  | S754_infinity true => (0, 0, 0)
  | S754_finite true m e => (1, Z.opp e, Zneg m)
  | S754_zero _ => (2, 0, 0)
  | S754_finite false m e => (3, e, Zpos m)
  | S754_infinity false => (4, 0, 0)
  | S754_nan => (5, 0, 0)
  end%Z.

Definition lex3 (a b : Z * Z * Z) : comparison :=
  match a, b with
  | (a1, a2, a3), (b1, b2, b3) =>
      match Z.compare a1 b1 with
      | Eq => match Z.compare a2 b2 with Eq => Z.compare a3 b3 | c => c end
      | c => c
      end
  end.

End Binary64.

(** ** Facts about [fit] and [predict] *)

Section RegressorFacts.

Context {spline : Type}.
Variable construct : list pyfloat -> list pyfloat -> Q -> Z -> spline.
Variable spline_eval : spline -> pyfloat -> pyfloat.

Lemma promediar_duplicados_shape X y :
  (length X <> length y /\
   promediar_duplicados X y = Err (ValueError "All arrays must be of the same length"%string)) \/
  (length X = length y /\
   promediar_duplicados X y =
   Ok (map (fun e => Fin (fst e)) (groupby_sum (combine X y)),
       map (fun e => group_mean (snd e)) (groupby_sum (combine X y)))).
Proof.
  unfold promediar_duplicados. destruct (Nat.eqb (length X) (length y)) eqn:E.
  - apply Nat.eqb_eq in E. right. auto.
  - apply Nat.eqb_neq in E. left. auto.
Qed.

Lemma fit_eq X y (st : SplineRegressor spline) :
  fit construct X y st =
  match promediar_duplicados X y with
  | Err e => (Err e, st)
  | Ok d =>
      match UnivariateSpline construct (fst d) (snd d) st.(s) st.(k) with
      | Err e => (Err e, st)
      | Ok m => (Ok tt, mkRegressor st.(s) st.(k) (Some m))
      end
  end.
Proof.
  unfold fit, bind, lift, get, put, ret, raise.
  destruct (promediar_duplicados X y) as [d|e]; [|reflexivity].
  destruct (UnivariateSpline construct (fst d) (snd d) st.(s) st.(k)); reflexivity.
Qed.

Lemma predict_eq X (st : SplineRegressor spline) :
  predict spline_eval X st =
  match st.(model) with
  | Some m => (Ok (map (spline_eval m) X), st)
  | None => (Err (ValueError "This model is not fitted yet."%string), st)
  end.
Proof. unfold predict, bind, get, ret, raise. destruct st.(model); reflexivity. Qed.

Lemma UnivariateSpline_cases x y s0 k0 :
  (spline_rejects s0 k0 (length x) /\
   exists r, UnivariateSpline construct x y s0 k0 = Err (SplineError r)) \/
  (~ spline_rejects s0 k0 (length x) /\
   UnivariateSpline construct x y s0 k0 = Ok (construct x y s0 k0)).
Proof.
  unfold UnivariateSpline, spline_rejects.
  destruct ((1 <=? k0)%Z) eqn:E1;
    [apply Z.leb_le in E1 | apply Z.leb_gt in E1;
     left; split; [lia | eexists; reflexivity]].
  destruct ((k0 <=? 5)%Z) eqn:E2;
    [apply Z.leb_le in E2 | apply Z.leb_gt in E2;
     left; split; [lia | eexists; reflexivity]].
  simpl. destruct (Qle_bool 0 s0) eqn:E3; simpl.
  - apply Qle_bool_iff in E3.
    destruct ((Z.of_nat (length x) <=? k0)%Z) eqn:E4.
    + apply Z.leb_le in E4. left. split; [lia | eexists; reflexivity].
    + apply Z.leb_gt in E4. right. split; [|reflexivity].
      intros [H|[H|[H|H]]]; try lia. exact (Qlt_not_le _ _ H E3).
  - left. split; [|eexists; reflexivity].
    right; right; left. apply Qnot_le_lt. intros H.
    apply Qle_bool_iff in H. congruence.
Qed.

End RegressorFacts.

(** ** Claims about the estimator *)

Section RegressorClaims.

Context {spline : Type}.
Variable construct : list pyfloat -> list pyfloat -> Q -> Z -> spline.
Variable spline_eval : spline -> pyfloat -> pyfloat.

(** C2: on an instance without a fitted spline, [predict] fails with the
    not-fitted error, which the code raises as
    [ValueError("This model is not fitted yet.")], for every input, the empty
    one included, and leaves the instance as it was; after a successful [fit]
    it returns the values of the spline and never fails this way. *)
Theorem predict_unfitted_raises_ValueError X :
  (forall st : SplineRegressor spline, st.(model) = None ->
     predict spline_eval X st =
     (Err (ValueError "This model is not fitted yet."%string), st)) /\
  (forall (st0 st : SplineRegressor spline) X0 y0,
     fit construct X0 y0 st0 = (Ok tt, st) ->
     exists m, st.(model) = Some m /\
       predict spline_eval X st = (Ok (map (spline_eval m) X), st)).
Proof.
  split.
  - intros st H. rewrite predict_eq, H. reflexivity.
  - intros st0 st X0 y0 H. rewrite fit_eq in H.
    destruct (promediar_duplicados X0 y0) as [d|e]; [|discriminate].
    destruct (UnivariateSpline construct (fst d) (snd d) st0.(s) st0.(k)) as [m|e];
      [|discriminate].
    injection H as <-. exists m. split; [reflexivity|].
    rewrite predict_eq. reflexivity.
Qed.

(** C3: [fit] either succeeds and installs the spline built from the
    deduplicated data, or raises and leaves the instance unchanged. *)
Theorem fit_atomic X y (st : SplineRegressor spline) :
  match fit construct X y st with
  | (Ok _, st') =>
      exists xu ya, promediar_duplicados X y = Ok (xu, ya) /\
        st' = mkRegressor st.(s) st.(k) (Some (construct xu ya st.(s) st.(k)))
  | (Err _, st') => st' = st
  end.
Proof.
  rewrite fit_eq. destruct (promediar_duplicados X y) as [[xu ya]|e]; [|reflexivity].
  simpl. destruct (UnivariateSpline_cases construct xu ya st.(s) st.(k))
    as [[_ [r ->]] | [_ ->]]; [reflexivity|].
  exists xu, ya. auto.
Qed.


(** C6: after a first successful [fit], a second successful [fit] leaves the
    instance exactly as a fresh instance with the same hyperparameters fitted
    only on the second data, so every later [predict] agrees with it. *)
Theorem refit_replaces X1 y1 X2 y2 (st st1 st2 : SplineRegressor spline) :
  fit construct X1 y1 st = (Ok tt, st1) ->
  fit construct X2 y2 st1 = (Ok tt, st2) ->
  fit construct X2 y2 (init st.(s) st.(k)) = (Ok tt, st2) /\
  forall Xq, predict spline_eval Xq st2 =
             predict spline_eval Xq (snd (fit construct X2 y2 (init st.(s) st.(k)))).
Proof.
  intros H1 H2. rewrite fit_eq in H1.
  destruct (promediar_duplicados X1 y1) as [d1|e]; [|discriminate].
  destruct (UnivariateSpline construct (fst d1) (snd d1) st.(s) st.(k)) as [m1|e];
    [|discriminate].
  injection H1 as <-. rewrite fit_eq in H2 |- *. simpl in *.
  destruct (promediar_duplicados X2 y2) as [d2|e]; [|discriminate].
  destruct (UnivariateSpline construct (fst d2) (snd d2) st.(s) st.(k)) as [m2|e];
    [|discriminate].
  injection H2 as <-. split; reflexivity.
Qed.

(** C10: constructing [SplineRegressor(s, k)] checks nothing: it succeeds
    for every [s] and [k] and leaves the instance unfitted; with [k] outside
    [1, 5] or [s] negative, every later [fit] raises and leaves it so. *)
Theorem init_never_validates (s0 : Q) (k0 : Z) :
  (init s0 k0 : SplineRegressor spline).(model) = None /\
  (init s0 k0 : SplineRegressor spline).(s) = s0 /\
  (init s0 k0 : SplineRegressor spline).(k) = k0 /\
  ((k0 < 1)%Z \/ (5 < k0)%Z \/ s0 < 0 ->
   forall X y, exists e, fit construct X y (init s0 k0) = (Err e, init s0 k0)).
Proof.
  split; [reflexivity|]. split; [reflexivity|]. split; [reflexivity|].
  intros Hbad X y. rewrite fit_eq. cbn [init s k].
  destruct (promediar_duplicados X y) as [d|e]; [|eexists; reflexivity].
  destruct (UnivariateSpline_cases construct (fst d) (snd d) s0 k0)
    as [[_ [r ->]] | [Hr _]].
  - eexists; reflexivity.
  - exfalso. apply Hr. unfold spline_rejects. simpl. tauto.
Qed.

End RegressorClaims.

(** ** Facts about the groupby accumulator *)

Ltac qbool E :=
  match type of E with
  | Qeq_bool _ _ = true => apply Qeq_bool_iff in E
  | Qeq_bool _ _ = false => apply Qeq_bool_neq in E
  | Qle_bool _ _ = true => apply Qle_bool_iff in E
  | Qle_bool ?a ?b = false =>
      let H := fresh in
      assert (H : ~ a <= b) by (intros H; apply Qle_bool_iff in H; congruence);
      clear E; rename H into E
  end.

Lemma add_obs_keys x v g e :
  In e (add_obs x v g) -> fst e = x \/ In (fst e) (map fst g).
Proof.
  induction g as [|[x' [sm c]] g IH]; simpl; intros H.
  - destruct H as [<-|[]]; auto.
  - destruct (Qeq_bool x x').
    + destruct H as [<-|H]; simpl; auto. right; right. apply in_map; exact H.
    + destruct (Qle_bool x x'); simpl in H.
      * destruct H as [<-|[<-|H]]; simpl; auto. right; right. apply in_map; exact H.
      * destruct H as [<-|H]; simpl; auto. destruct (IH H); auto.
Qed.

Lemma add_obs_sorted x v g :
  StronglySorted key_lt g -> StronglySorted key_lt (add_obs x v g).
Proof.
  induction g as [|[x' [sm c]] g IH]; simpl; intros Hs.
  - repeat constructor.
  - inversion Hs as [|? ? Hs' Hf]; subst.
    destruct (Qeq_bool x x') eqn:E.
    + constructor; [exact Hs'|]. eapply Forall_impl; [|exact Hf]. auto.
    + destruct (Qle_bool x x') eqn:E2.
      * qbool E; qbool E2. destruct (Qle_lt_or_eq _ _ E2) as [Hlt|Heq]; [|contradiction].
        constructor; [exact Hs|]. constructor; [exact Hlt|].
        eapply Forall_impl; [|exact Hf]. unfold key_lt; simpl. intros a Ha.
        exact (Qlt_trans _ _ _ Hlt Ha).
      * qbool E2. apply Qnot_le_lt in E2.
        constructor; [exact (IH Hs')|]. apply Forall_forall. intros e He.
        unfold key_lt; simpl. destruct (add_obs_keys _ _ _ _ He) as [->|Hin]; [exact E2|].
        apply in_map_iff in Hin. destruct Hin as [e' [<- He']].
        exact (proj1 (Forall_forall _ _) Hf e' He').
Qed.

Lemma lookup_key_none j g :
  (forall e, In e g -> j < fst e) -> lookup_key j g = None.
Proof.
  induction g as [|[x' a] g IH]; simpl; intros H; [reflexivity|].
  destruct (Qeq_bool j x') eqn:E.
  - qbool E. exfalso. exact (Qlt_not_eq _ _ (H _ (or_introl eq_refl)) E).
  - apply IH. intros e He. apply H. auto.
Qed.

Lemma Qeq_bool_compat a b c : a == b -> Qeq_bool a c = Qeq_bool b c.
Proof.
  intros H. destruct (Qeq_bool a c) eqn:E1, (Qeq_bool b c) eqn:E2; auto.
  - qbool E1; qbool E2. exfalso. apply E2. rewrite <- H. exact E1.
  - qbool E1; qbool E2. exfalso. apply E1. rewrite H. exact E2.
Qed.

Lemma lookup_add j x v g :
  StronglySorted key_lt g ->
  lookup_key j (add_obs x v g) =
  if Qeq_bool j x then
    Some (match lookup_key j g with
          | None => (obs_sum v, obs_count v)
          | Some (sm, c) => (sm + obs_sum v, (c + obs_count v)%nat)
          end)
  else lookup_key j g.
Proof.
  induction g as [|[x' [sm c]] g IH]; simpl; intros Hs.
  - destruct (Qeq_bool j x); reflexivity.
  - inversion Hs as [|? ? Hs' Hf]; subst.
    destruct (Qeq_bool x x') eqn:E.
    + qbool E. simpl. rewrite (Qeq_bool_comm j x'), (Qeq_bool_comm j x).
      rewrite (Qeq_bool_compat _ _ j E).
      destruct (Qeq_bool x' j); reflexivity.
    + destruct (Qle_bool x x') eqn:E2.
      * qbool E; qbool E2. destruct (Qle_lt_or_eq _ _ E2) as [Hlt|Heq]; [|contradiction].
        simpl. destruct (Qeq_bool j x) eqn:Ej; [|reflexivity].
        qbool Ej. f_equal.
        assert (Hn : lookup_key j ((x', (sm, c)) :: g) = None).
        { apply lookup_key_none. intros e [<-|He]; simpl; rewrite Ej; [exact Hlt|].
          apply (Qlt_trans _ x'); [exact Hlt|].
          exact (proj1 (Forall_forall _ _) Hf e He). }
        simpl in Hn. rewrite Hn. reflexivity.
      * qbool E2. apply Qnot_le_lt in E2. simpl. rewrite (IH Hs').
        destruct (Qeq_bool j x) eqn:Ej; [|reflexivity].
        qbool Ej. destruct (Qeq_bool j x') eqn:Ej'; [|reflexivity].
        qbool Ej'. exfalso. apply (Qlt_irrefl x). rewrite <- Ej at 1. rewrite Ej'. exact E2.
Qed.

Lemma lookup_key_in e g :
  StronglySorted key_lt g -> In e g -> lookup_key (fst e) g = Some (snd e).
Proof.
  induction g as [|[x' a] g IH]; simpl; intros Hs Hin; [contradiction|].
  inversion Hs as [|? ? Hs' Hf]; subst.
  destruct Hin as [<-|Hin]; simpl.
  - rewrite Qeq_bool_refl. reflexivity.
  - destruct (Qeq_bool (fst e) x') eqn:E.
    + qbool E. exfalso. pose proof (proj1 (Forall_forall _ _) Hf e Hin) as Hlt.
      unfold key_lt in Hlt; simpl in Hlt. rewrite E in Hlt. exact (Qlt_irrefl _ Hlt).
    + exact (IH Hs' Hin).
Qed.

Lemma lookup_key_some j g a :
  lookup_key j g = Some a -> exists x, In (x, a) g /\ j == x.
Proof.
  induction g as [|[x' a'] g IH]; simpl; intros H; [discriminate|].
  destruct (Qeq_bool j x') eqn:E.
  - injection H as <-. qbool E. exists x'. auto.
  - destruct (IH H) as [x [Hin Hj]]. exists x. auto.
Qed.

Lemma finite_vals_app a b : finite_vals (a ++ b) = finite_vals a ++ finite_vals b.
Proof. induction a as [|[q|] a IH]; simpl; try rewrite IH; reflexivity. Qed.

Lemma sumQ_app a b : sumQ (a ++ b) == sumQ a + sumQ b.
Proof.
  induction a as [|q a IH]; simpl; [ring|]. unfold sumQ in *. simpl.
  rewrite IH. ring.
Qed.

Lemma filter_existsb_false {A} (f : A -> bool) l :
  existsb f l = false -> filter f l = [].
Proof.
  induction l as [|a l IH]; simpl; [reflexivity|].
  intros H. apply orb_false_iff in H. destruct H as [-> H]. exact (IH H).
Qed.

Lemma rows_group_snoc rows r j :
  rows_group (rows ++ [r]) j =
  rows_group rows j ++ (if py_eqb (fst r) (Fin j) then [snd r] else []).
Proof.
  unfold rows_group. rewrite filter_app, map_app. simpl.
  destruct (py_eqb (fst r) (Fin j)); reflexivity.
Qed.

Lemma Qred_idem q : Qred (Qred q) = Qred q.
Proof. apply Qred_complete, Qred_correct. Qed.

(** The invariant of the one-pass accumulation: keys strictly increasing and
    held in reduced form; a key is present exactly when some row has it, and
    its entry holds the sum and the count of the group's non-NaN values. *)
Lemma groupby_sum_inv rows :
  StronglySorted key_lt (groupby_sum rows) /\
  (forall e, In e (groupby_sum rows) -> Qred (fst e) = fst e) /\
  forall j,
    match lookup_key j (groupby_sum rows) with
    | None => existsb (fun r => py_eqb (fst r) (Fin j)) rows = false
    | Some (sm, c) =>
        existsb (fun r => py_eqb (fst r) (Fin j)) rows = true /\
        sm == sumQ (finite_vals (rows_group rows j)) /\
        c = length (finite_vals (rows_group rows j))
    end.
Proof.
  induction rows as [|r rows IH] using rev_ind.
  - split; [constructor|]. split; [intros _ []|]. intros j; reflexivity.
  - unfold groupby_sum in *. rewrite fold_left_app. simpl.
    set (g := fold_left group_step rows []) in *.
    destruct IH as (Hs & Hc & Hl).
    unfold group_step. destruct r as [[q|] v]; simpl.
    + split; [apply add_obs_sorted; exact Hs|]. split.
      * intros e He. destruct (add_obs_keys _ _ _ _ He) as [->|Hin]; [apply Qred_idem|].
        apply in_map_iff in Hin. destruct Hin as [e' [<- He']]. exact (Hc e' He').
      * intros j. rewrite (lookup_add _ _ _ _ Hs), existsb_app, rows_group_snoc.
        simpl.
        assert (Hjq : Qeq_bool j (Qred q) = Qeq_bool q j).
        { rewrite Qeq_bool_comm. apply Qeq_bool_compat, Qred_correct. }
        rewrite Hjq. destruct (Qeq_bool q j) eqn:E.
        -- specialize (Hl j). rewrite finite_vals_app, length_app.
           destruct (lookup_key j g) as [[sm c]|].
           ++ destruct Hl as (Hex & Hsum & Hcnt). rewrite Hex. split; [reflexivity|].
              rewrite sumQ_app, <- Hsum, <- Hcnt.
              destruct v; simpl; split; unfold sumQ; simpl; try ring; lia.
           ++ rewrite Hl. unfold rows_group. rewrite (filter_existsb_false _ _ Hl).
              simpl. split; [reflexivity|].
              destruct v; simpl; split; unfold sumQ; simpl; try ring; lia.
        -- rewrite app_nil_r, orb_false_r. exact (Hl j).
    + split; [exact Hs|]. split; [exact Hc|]. intros j.
      rewrite existsb_app, rows_group_snoc. simpl.
      rewrite app_nil_r, orb_false_r. exact (Hl j).
Qed.

Lemma key_sorted_map_fst g : StronglySorted key_lt g -> StronglySorted Qlt (map fst g).
Proof.
  induction g as [|e g IH]; simpl; intros H; [constructor|].
  inversion H as [|? ? Hs Hf]; subst. constructor; [exact (IH Hs)|].
  apply Forall_map. exact Hf.
Qed.

Lemma in_combine_exists {A B} (a : A) (X : list A) (Y : list B) :
  In a X -> length X = length Y -> exists b, In (a, b) (combine X Y).
Proof.
  revert Y. induction X as [|a' X IH]; intros [|b Y] Hin Hlen; simpl in *;
    try discriminate; try contradiction.
  destruct Hin as [<-|Hin]; [exists b; auto|].
  injection Hlen as Hlen. destruct (IH Y Hin Hlen) as [b' Hb]. exists b'. auto.
Qed.

Lemma promediar_duplicados_ok X y :
  length X = length y ->
  promediar_duplicados X y =
  Ok (map Fin (map fst (groupby_sum (combine X y))),
      map (fun e => group_mean (snd e)) (groupby_sum (combine X y))).
Proof.
  intros Hlen. destruct (promediar_duplicados_shape X y) as [[Hn _]|[_ ->]];
    [contradiction|]. rewrite map_map. reflexivity.
Qed.

Lemma add_obs_last x v g :
  (forall e, In e g -> fst e < x) ->
  add_obs x v g = g ++ [(x, (obs_sum v, obs_count v))].
Proof.
  induction g as [|[x' [sm c]] g IH]; simpl; intros H; [reflexivity|].
  assert (Hx : x' < x) by exact (H _ (or_introl eq_refl)).
  destruct (Qeq_bool x x') eqn:E.
  - qbool E. exfalso. apply (Qlt_irrefl x). rewrite E at 1. exact Hx.
  - destruct (Qle_bool x x') eqn:E2.
    + qbool E2. exfalso. exact (Qle_not_lt _ _ E2 Hx).
    + rewrite IH; [reflexivity|]. intros e He. apply H. auto.
Qed.

Lemma group_step_sorted_rows ks ya g0 :
  StronglySorted Qlt ks -> Forall (fun q => Qred q = q) ks ->
  (forall e q, In e g0 -> In q ks -> fst e < q) ->
  fold_left group_step (combine (map Fin ks) ya) g0 =
  g0 ++ map row_entry (combine ks ya).
Proof.
  revert ya g0. induction ks as [|q ks IH]; intros [|v ya] g0 Hs Hc Hg; simpl;
    try (rewrite app_nil_r; reflexivity).
  inversion Hs as [|? ? Hs' Hf]; subst. inversion Hc as [|? ? Hq Hc']; subst.
  unfold group_step at 2. simpl. rewrite Hq.
  rewrite add_obs_last by (intros e He; apply Hg; simpl; auto).
  rewrite IH; auto.
  - rewrite <- app_assoc. reflexivity.
  - intros e q' He Hq'. apply in_app_or in He. destruct He as [He|[<-|[]]].
    + apply Hg; simpl; auto.
    + exact (proj1 (Forall_forall _ _) Hf q' Hq').
Qed.

Lemma map_fst_combine {A B} (l : list A) (l' : list B) :
  length l = length l' -> map fst (combine l l') = l.
Proof.
  revert l'. induction l as [|a l IH]; intros [|b l'] H; simpl in *;
    try discriminate; auto.
  f_equal. apply IH. lia.
Qed.

Lemma map_snd_combine {A B} (l : list A) (l' : list B) :
  length l = length l' -> map snd (combine l l') = l'.
Proof.
  revert l'. induction l as [|a l IH]; intros [|b l'] H; simpl in *;
    try discriminate; auto.
  f_equal. apply IH. lia.
Qed.

Lemma group_mean_canonical v :
  canonical v -> group_mean (obs_sum v, obs_count v) = v.
Proof.
  destruct v as [q|]; simpl; intros H; [|reflexivity].
  unfold group_mean. cbn [fst snd]. f_equal.
  transitivity (Qred q); [|exact H]. apply Qred_complete.
  unfold Qdiv. rewrite Qmult_1_r. reflexivity.
Qed.

(** On keys already strictly increasing and reduced, with canonical values,
    [promediar_duplicados] returns its input. *)
Lemma promediar_duplicados_sorted_fixpoint ks ya :
  length ks = length ya ->
  StronglySorted Qlt ks -> Forall (fun q => Qred q = q) ks -> Forall canonical ya ->
  promediar_duplicados (map Fin ks) ya = Ok (map Fin ks, ya).
Proof.
  intros Hlen Hs Hc Hy.
  rewrite promediar_duplicados_ok by (rewrite length_map; exact Hlen).
  unfold groupby_sum. rewrite group_step_sorted_rows by (auto; intros _ _ []).
  simpl. rewrite !map_map. unfold row_entry. simpl.
  rewrite <- (map_map fst Fin), map_fst_combine by exact Hlen. f_equal. f_equal.
  rewrite <- (map_snd_combine ks ya Hlen) at 2. apply map_ext_in.
  intros [q v] Hin. simpl. apply group_mean_canonical.
  apply in_combine_r in Hin. exact (proj1 (Forall_forall _ _) Hy v Hin).
Qed.

Lemma promediar_duplicados_output_canonical X y xu ya :
  promediar_duplicados X y = Ok (xu, ya) ->
  exists ks, xu = map Fin ks /\ length ks = length ya /\
    StronglySorted Qlt ks /\ Forall (fun q => Qred q = q) ks /\ Forall canonical ya.
Proof.
  intros H. destruct (promediar_duplicados_shape X y) as [[_ E]|[Hlen E]];
    rewrite E in H; [discriminate|]. injection H as <- <-.
  destruct (groupby_sum_inv (combine X y)) as (Hs & Hc & _).
  exists (map fst (groupby_sum (combine X y))). split; [rewrite map_map; reflexivity|].
  split; [rewrite !length_map; reflexivity|]. split; [exact (key_sorted_map_fst _ Hs)|].
  split.
  - apply Forall_forall. intros q Hq. apply in_map_iff in Hq.
    destruct Hq as [e [<- He]]. exact (Hc e He).
  - apply Forall_forall. intros v Hv. apply in_map_iff in Hv.
    destruct Hv as [[x [sm [|c]]] [<- _]]; [exact I|]. apply Qred_idem.
Qed.

Lemma add_obs_fresh x v g :
  (forall e, In e g -> ~ fst e == x) ->
  Permutation (add_obs x v g) ((x, (obs_sum v, obs_count v)) :: g).
Proof.
  induction g as [|[x' [sm c]] g IH]; simpl; intros H; [reflexivity|].
  destruct (Qeq_bool x x') eqn:E.
  - qbool E. exfalso. apply (H _ (or_introl eq_refl)). simpl. symmetry. exact E.
  - destruct (Qle_bool x x'); [reflexivity|].
    eapply perm_trans; [apply perm_skip, IH | apply perm_swap].
    intros e He. apply H. auto.
Qed.

Lemma group_step_distinct_rows ks ya g0 :
  NoDup ks -> Forall (fun q => Qred q = q) ks ->
  (forall e q, In e g0 -> In q ks -> ~ fst e == q) ->
  Permutation (fold_left group_step (combine (map Fin ks) ya) g0)
              (map row_entry (combine ks ya) ++ g0).
Proof.
  revert ya g0. induction ks as [|q ks IH]; intros [|v ya] g0 Hd Hc Hg; simpl;
    try reflexivity.
  inversion Hd as [|? ? Hq Hd']; subst. inversion Hc as [|? ? Hr Hc']; subst.
  unfold group_step at 2. simpl. rewrite Hr.
  eapply perm_trans; [apply IH; auto|].
  - intros e q' He Hq'. destruct (add_obs_keys _ _ _ _ He) as [->|Hin].
    + intros Heq. apply Hq. apply Qred_complete in Heq.
      rewrite Hr, (proj1 (Forall_forall _ _) Hc' q' Hq') in Heq. subst. exact Hq'.
    + apply in_map_iff in Hin. destruct Hin as [e' [<- He']]. apply Hg; simpl; auto.
  - eapply perm_trans; [apply Permutation_app_head, add_obs_fresh|].
    + intros e He. apply Hg; simpl; auto.
    + unfold row_entry at 2. simpl. apply Permutation_sym, Permutation_middle.
Qed.

Lemma canonical_keys X :
  Forall (fun x => exists q, x = Fin q /\ Qred q = q) X ->
  exists ks, X = map Fin ks /\ Forall (fun q => Qred q = q) ks.
Proof.
  induction X as [|x X IH]; intros H; [exists []; auto|].
  inversion H as [|? ? [q [-> Hq]] H']; subst.
  destruct (IH H') as [ks [-> Hks]]. exists (q :: ks). auto.
Qed.

Lemma combine_map_l {A A' B} (f : A -> A') (l : list A) (l' : list B) :
  combine (map f l) l' = map (fun p => (f (fst p), snd p)) (combine l l').
Proof.
  revert l'. induction l as [|a l IH]; intros [|b l']; simpl; auto. rewrite IH. reflexivity.
Qed.

Lemma combine_map_same {A B C} (f : A -> B) (h : A -> C) (l : list A) :
  combine (map f l) (map h l) = map (fun a => (f a, h a)) l.
Proof. induction l as [|a l IH]; simpl; [reflexivity|]. rewrite IH. reflexivity. Qed.

Lemma combine_map_fst_snd {A B} (l : list (A * B)) :
  combine (map fst l) (map snd l) = l.
Proof. induction l as [|[a b] l IH]; simpl; [reflexivity|]. rewrite IH. reflexivity. Qed.

Lemma fold_group_step_filter rows g :
  fold_left group_step rows g =
  fold_left group_step (filter (fun r => negb (is_nan (fst r))) rows) g.
Proof.
  revert g. induction rows as [|[[q|] v] rows IH]; intros g; simpl; auto.
Qed.

(** ** Claims about [promediar_duplicados] *)

(** C4 (as amended): [promediar_duplicados] is idempotent on every input it
    accepts; on input whose x values are pairwise distinct and none of them
    NaN, it only sorts: the output pairs are the input pairs reordered by
    strictly increasing x.  (Floats are taken in reduced form, [Qred q = q],
    as each float has a single representation.) *)
Theorem promediar_duplicados_idempotent X y :
  (forall xu ya, promediar_duplicados X y = Ok (xu, ya) ->
     promediar_duplicados xu ya = Ok (xu, ya)) /\
  (length X = length y -> NoDup X ->
   Forall (fun x => exists q, x = Fin q /\ Qred q = q) X -> Forall canonical y ->
   exists ks ya, promediar_duplicados X y = Ok (map Fin ks, ya) /\
     StronglySorted Qlt ks /\ Permutation (combine (map Fin ks) ya) (combine X y)).
Proof.
  split.
  - intros xu ya H.
    destruct (promediar_duplicados_output_canonical _ _ _ _ H)
      as (ks & -> & Hlen & Hs & Hc & Hy).
    exact (promediar_duplicados_sorted_fixpoint _ _ Hlen Hs Hc Hy).
  - intros Hlen Hd HX Hy.
    pose proof (promediar_duplicados_ok _ _ Hlen) as E.
    destruct (promediar_duplicados_output_canonical _ _ _ _ E) as (ks & Hks & _ & Hs & _).
    rewrite Hks in E. eexists ks, _. split; [exact E|]. split; [exact Hs|].
    destruct (canonical_keys _ HX) as [xs [-> Hxs]].
    rewrite length_map in Hlen.
    assert (Hd' : NoDup xs) by exact (NoDup_map_inv _ _ Hd).
    pose proof (group_step_distinct_rows xs y [] Hd' Hxs (fun _ _ H _ => match H with end))
      as Hp. rewrite app_nil_r in Hp. fold (groupby_sum (combine (map Fin xs) y)) in Hp.
    rewrite map_map in Hks. rewrite <- Hks, combine_map_same.
    eapply perm_trans; [apply Permutation_map, Hp|].
    rewrite map_map, combine_map_l. unfold row_entry. simpl.
    apply Permutation_refl'. apply map_ext_in. intros [q v] Hin. simpl. f_equal.
    apply group_mean_canonical. apply in_combine_r in Hin.
    exact (proj1 (Forall_forall _ _) Hy v Hin).
Qed.

(** C4 as stated fails: a single x value is pairwise distinct from the
    others, yet a NaN x value is dropped rather than kept in sorted order. *)
Lemma promediar_duplicados_nan_not_permutation :
  NoDup [NaN] /\
  promediar_duplicados [NaN] [Fin 1] = Ok ([], []) /\
  ~ Permutation (combine ([] : list pyfloat) ([] : list pyfloat)) (combine [NaN] [Fin 1]).
Proof.
  split; [constructor; [intros []|constructor]|]. split; [vm_compute; reflexivity|].
  intros H. apply Permutation_length in H. discriminate.
Qed.

(** C8: on two empty arrays [promediar_duplicados] returns two empty arrays;
    it raises exactly when the lengths of [X] and [y] differ. *)
Theorem promediar_duplicados_empty_and_errors :
  promediar_duplicados [] [] = Ok ([], []) /\
  forall X y, (exists e, promediar_duplicados X y = Err e) <-> length X <> length y.
Proof.
  split; [reflexivity|]. intros X y.
  destruct (promediar_duplicados_shape X y) as [[Hn ->]|[Hn ->]].
  - split; [intros _; exact Hn | intros _; eexists; reflexivity].
  - split; [intros [e H]; discriminate | intros H; contradiction].
Qed.

(** C9: the rows whose x value is NaN play no part: the result is the one
    of the rows with a non-NaN x alone, and when every x value is NaN both
    outputs are empty and nothing is raised. *)
Theorem promediar_duplicados_drops_nan_keys X y :
  length X = length y ->
  (let P := filter (fun r => negb (is_nan (fst r))) (combine X y) in
   promediar_duplicados X y = promediar_duplicados (map fst P) (map snd P)) /\
  (forallb is_nan X = true -> promediar_duplicados X y = Ok ([], [])).
Proof.
  intros Hlen. split.
  - simpl. rewrite (promediar_duplicados_ok _ _ Hlen).
    rewrite promediar_duplicados_ok by (rewrite !length_map; reflexivity).
    rewrite combine_map_fst_snd. unfold groupby_sum. rewrite <- fold_group_step_filter.
    reflexivity.
  - intros Hnan. rewrite (promediar_duplicados_ok _ _ Hlen).
    unfold groupby_sum. rewrite fold_group_step_filter.
    replace (filter _ (combine X y)) with (@nil (pyfloat * pyfloat)); [reflexivity|].
    symmetry. apply filter_existsb_false.
    apply not_true_iff_false. intros H. apply existsb_exists in H.
    destruct H as [[x v] [Hin Hx]]. apply in_combine_l in Hin.
    rewrite forallb_forall in Hnan. specialize (Hnan x Hin).
    destruct x; simpl in *; discriminate.
Qed.

(** ** The grouping step in binary64 arithmetic *)

Section Binary64Facts.
Import SpecFloat Binary64.

Lemma lex3_eq a b : lex3 a b = Eq <-> a = b.
Proof.
  destruct a as [[a1 a2] a3], b as [[b1 b2] b3]; simpl.
  destruct (Z.compare_spec a1 b1); [subst|split; [discriminate|intros Ex; injection Ex; lia]..].
  destruct (Z.compare_spec a2 b2); [subst|split; [discriminate|intros Ex; injection Ex; lia]..].
  destruct (Z.compare_spec a3 b3); [subst|split; [discriminate|intros Ex; injection Ex; lia]..].
  split; reflexivity.
Qed.

Lemma lex3_lt a b :
  lex3 a b = Lt <->
  (fst (fst a) < fst (fst b) \/
   fst (fst a) = fst (fst b) /\
   (snd (fst a) < snd (fst b) \/ snd (fst a) = snd (fst b) /\ snd a < snd b))%Z.
Proof.
  destruct a as [[a1 a2] a3], b as [[b1 b2] b3]; simpl.
  destruct (Z.compare_spec a1 b1); [subst| |];
    [destruct (Z.compare_spec a2 b2); [subst| |];
     [destruct (Z.compare_spec a3 b3)| |]| |];
    split; intros; try reflexivity; try discriminate; lia.
Qed.

Lemma lex3_antisym a b : lex3 b a = CompOpp (lex3 a b).
Proof.
  destruct a as [[a1 a2] a3], b as [[b1 b2] b3]; simpl.
  rewrite (Z.compare_antisym a1 b1), (Z.compare_antisym a2 b2), (Z.compare_antisym a3 b3).
  destruct (a1 ?= b1)%Z, (a2 ?= b2)%Z, (a3 ?= b3)%Z; reflexivity.
Qed.

Lemma lex3_trans a b c : lex3 a b = Lt -> lex3 b c = Lt -> lex3 a c = Lt.
Proof. rewrite !lex3_lt. lia. Qed.

Lemma SFcompare_fkey a b :
  is_nan a = false -> is_nan b = false -> SFcompare a b = Some (lex3 (fkey a) (fkey b)).
Proof.
  destruct a as [sa|sa| |sa ma ea], b as [sb|sb| |sb mb eb]; intros Ha Hb;
    try discriminate; try destruct sa; try destruct sb; try reflexivity.
  all: cbn -[Z.opp Z.compare]; try rewrite Z.compare_opp, (Z.compare_antisym ea eb);
    destruct (ea ?= eb)%Z; reflexivity.
Qed.

Lemma py_eqb_spec a b :
  py_eqb a b = true <-> is_nan a = false /\ is_nan b = false /\ fkey a = fkey b.
Proof.
  unfold py_eqb, SFeqb.
  destruct (is_nan a) eqn:Ha; [destruct a; try discriminate;
    split; [discriminate | intros (H & _); discriminate]|].
  destruct (is_nan b) eqn:Hb; [destruct b; try discriminate;
    destruct a; (split; [discriminate | intros (_ & H & _); discriminate])|].
  rewrite (SFcompare_fkey _ _ Ha Hb). rewrite <- lex3_eq.
  destruct (lex3 (fkey a) (fkey b)); intuition discriminate.
Qed.

Lemma py_ltb_spec a b :
  py_ltb a b = true <->
  is_nan a = false /\ is_nan b = false /\ lex3 (fkey a) (fkey b) = Lt.
Proof.
  unfold py_ltb, SFltb.
  destruct (is_nan a) eqn:Ha; [destruct a; try discriminate;
    split; [discriminate | intros (H & _); discriminate]|].
  destruct (is_nan b) eqn:Hb; [destruct b; try discriminate;
    destruct a; (split; [discriminate | intros (_ & H & _); discriminate])|].
  rewrite (SFcompare_fkey _ _ Ha Hb).
  destruct (lex3 (fkey a) (fkey b)); intuition discriminate.
Qed.

Lemma py_eqb_nan_l a b : is_nan a = true -> py_eqb a b = false.
Proof.
  intros H. apply not_true_iff_false. rewrite py_eqb_spec. intros (H' & _). congruence.
Qed.

Lemma py_eqb_sym a b : py_eqb a b = py_eqb b a.
Proof.
  apply eq_true_iff_eq. rewrite !py_eqb_spec. intuition.
Qed.

Lemma py_eqb_refl a : is_nan a = false -> py_eqb a a = true.
Proof. intros H. apply py_eqb_spec. auto. Qed.

Lemma py_eqb_compat a b c : py_eqb a b = true -> py_eqb a c = py_eqb b c.
Proof.
  rewrite py_eqb_spec. intros (Ha & Hb & E). apply eq_true_iff_eq. rewrite !py_eqb_spec.
  rewrite E. intuition.
Qed.

Lemma py_ltb_compat_l a b c : py_eqb a b = true -> py_ltb a c = py_ltb b c.
Proof.
  rewrite py_eqb_spec. intros (Ha & Hb & E). apply eq_true_iff_eq. rewrite !py_ltb_spec.
  rewrite E. intuition.
Qed.

Lemma py_ltb_compat_r a b c : py_eqb a b = true -> py_ltb c a = py_ltb c b.
Proof.
  rewrite py_eqb_spec. intros (Ha & Hb & E). apply eq_true_iff_eq. rewrite !py_ltb_spec.
  rewrite E. intuition.
Qed.

Lemma py_ltb_trans a b c : py_ltb a b = true -> py_ltb b c = true -> py_ltb a c = true.
Proof.
  rewrite !py_ltb_spec. intros (Ha & _ & H1) (_ & Hc & H2).
  split; [exact Ha|]. split; [exact Hc|]. exact (lex3_trans _ _ _ H1 H2).
Qed.

Lemma py_ltb_not_eqb a b : py_ltb a b = true -> py_eqb a b = false.
Proof.
  rewrite py_ltb_spec. intros (_ & _ & H). apply not_true_iff_false.
  rewrite py_eqb_spec. intros (_ & _ & E). rewrite E in H.
  assert (lex3 (fkey b) (fkey b) = Eq) by (apply lex3_eq; reflexivity). congruence.
Qed.

Lemma py_ltb_total a b :
  is_nan a = false -> is_nan b = false ->
  py_eqb a b = false -> py_ltb a b = false -> py_ltb b a = true.
Proof.
  intros Ha Hb E L. apply py_ltb_spec. split; [exact Hb|]. split; [exact Ha|].
  rewrite lex3_antisym. destruct (lex3 (fkey a) (fkey b)) eqn:C; [| |reflexivity].
  - apply lex3_eq in C. exfalso.
    assert (py_eqb a b = true) by (apply py_eqb_spec; auto). congruence.
  - exfalso. assert (py_ltb a b = true) by (apply py_ltb_spec; auto). congruence.
Qed.

Lemma f64_add_obs_keys x v g e :
  In e (add_obs x v g) -> fst e = x \/ In (fst e) (map fst g).
Proof.
  induction g as [|[x' a] g IH]; simpl; intros H.
  - destruct H as [<-|[]]; auto.
  - destruct (py_eqb x x').
    + destruct H as [<-|H]; simpl; auto. right; right. apply in_map; exact H.
    + destruct (py_ltb x x'); simpl in H.
      * destruct H as [<-|[<-|H]]; simpl; auto. right; right. apply in_map; exact H.
      * destruct H as [<-|H]; simpl; auto. destruct (IH H); auto.
Qed.

Lemma f64_add_obs_keys_ok x v g :
  is_nan x = false -> Forall (fun e => is_nan (fst e) = false) g ->
  Forall (fun e => is_nan (fst e) = false) (add_obs x v g).
Proof.
  intros Hx Hg. apply Forall_forall. intros e He.
  destruct (f64_add_obs_keys _ _ _ _ He) as [->|Hin]; [exact Hx|].
  apply in_map_iff in Hin. destruct Hin as [e' [<- He']].
  exact (proj1 (Forall_forall _ _) Hg e' He').
Qed.

Lemma f64_add_obs_sorted x v g :
  is_nan x = false -> Forall (fun e => is_nan (fst e) = false) g ->
  StronglySorted key_lt g -> StronglySorted key_lt (add_obs x v g).
Proof.
  intros Hx. induction g as [|[x' a] g IH]; simpl; intros Hk Hs.
  - repeat constructor.
  - inversion Hs as [|? ? Hs' Hf]; subst. inversion Hk as [|? ? Hx' Hk']; subst.
    destruct (py_eqb x x') eqn:E.
    + constructor; [exact Hs'|]. eapply Forall_impl; [|exact Hf]. auto.
    + destruct (py_ltb x x') eqn:E2.
      * constructor; [exact Hs|]. constructor; [exact E2|].
        eapply Forall_impl; [|exact Hf]. unfold key_lt; simpl. intros e' He'.
        exact (py_ltb_trans _ _ _ E2 He').
      * pose proof (py_ltb_total _ _ Hx Hx' E E2) as Hlt.
        constructor; [exact (IH Hk' Hs')|]. apply Forall_forall. intros e He.
        unfold key_lt; simpl. destruct (f64_add_obs_keys _ _ _ _ He) as [->|Hin];
          [exact Hlt|].
        apply in_map_iff in Hin. destruct Hin as [e' [<- He']].
        exact (proj1 (Forall_forall _ _) Hf e' He').
Qed.

Lemma f64_lookup_key_none j g :
  (forall e, In e g -> py_ltb j (fst e) = true) -> lookup_key j g = None.
Proof.
  induction g as [|[x' a] g IH]; simpl; intros H; [reflexivity|].
  pose proof (H _ (or_introl eq_refl)) as H0. simpl in H0.
  rewrite (py_ltb_not_eqb _ _ H0). apply IH. intros e He. apply H. auto.
Qed.

Lemma f64_lookup_add j x v g :
  is_nan x = false -> Forall (fun e => is_nan (fst e) = false) g ->
  StronglySorted key_lt g ->
  lookup_key j (add_obs x v g) =
  if py_eqb j x then
    Some (match lookup_key j g with
          | None => (x, kahan_step acc0 v)
          | Some (x', a) => (x', kahan_step a v)
          end)
  else lookup_key j g.
Proof.
  intros Hx. induction g as [|[x' a] g IH]; simpl; intros Hk Hs.
  - destruct (py_eqb j x); reflexivity.
  - inversion Hs as [|? ? Hs' Hf]; subst. inversion Hk as [|? ? Hx' Hk']; subst.
    destruct (py_eqb x x') eqn:E.
    + simpl. rewrite (py_eqb_sym j x), (py_eqb_compat _ _ j E), (py_eqb_sym x' j).
      destruct (py_eqb j x'); reflexivity.
    + destruct (py_ltb x x') eqn:E2.
      * simpl. destruct (py_eqb j x) eqn:Ej; [|reflexivity].
        pose proof (f64_lookup_key_none j ((x', a) :: g)) as Hn. simpl in Hn.
        rewrite Hn; [reflexivity|].
        intros e He. rewrite (py_ltb_compat_l _ _ _ Ej).
        destruct He as [<-|He]; [exact E2|].
        exact (py_ltb_trans _ _ _ E2 (proj1 (Forall_forall _ _) Hf e He)).
      * simpl. rewrite (IH Hk' Hs').
        destruct (py_eqb j x) eqn:Ej; [|reflexivity].
        destruct (py_eqb j x') eqn:Ej'; [|reflexivity].
        rewrite py_eqb_sym in Ej. rewrite <- (py_eqb_compat _ _ x' Ej) in Ej'. congruence.
Qed.

Lemma f64_lookup_key_in e g :
  Forall (fun e => is_nan (fst e) = false) g -> StronglySorted key_lt g ->
  In e g -> lookup_key (fst e) g = Some e.
Proof.
  induction g as [|[x' a] g IH]; simpl; intros Hk Hs Hin; [contradiction|].
  inversion Hs as [|? ? Hs' Hf]; subst. inversion Hk as [|? ? Hx' Hk']; subst.
  destruct Hin as [<-|Hin]; simpl.
  - simpl in Hx'. rewrite (py_eqb_refl _ Hx'). reflexivity.
  - pose proof (proj1 (Forall_forall _ _) Hf e Hin) as Hlt. unfold key_lt in Hlt.
    simpl in Hlt. rewrite py_eqb_sym, (py_ltb_not_eqb _ _ Hlt). exact (IH Hk' Hs' Hin).
Qed.

Lemma f64_lookup_key_some j g x a :
  lookup_key j g = Some (x, a) -> In (x, a) g /\ py_eqb j x = true.
Proof.
  induction g as [|[x' a'] g IH]; simpl; intros H; [discriminate|].
  destruct (py_eqb j x') eqn:E.
  - injection H as <- <-. auto.
  - destruct (IH H) as [Hin Hj]. auto.
Qed.

Lemma find_app_f64 {A} (f : A -> bool) l1 l2 :
  find f (l1 ++ l2) = match find f l1 with Some a => Some a | None => find f l2 end.
Proof. induction l1 as [|a l1 IH]; simpl; [reflexivity|]. destruct (f a); auto. Qed.

Lemma find_existsb_f64 {A} (f : A -> bool) l :
  existsb f l = false -> find f l = None.
Proof.
  induction l as [|a l IH]; simpl; [reflexivity|].
  intros H. apply orb_false_iff in H. destruct H as [-> H]. exact (IH H).
Qed.

Lemma find_split_f64 {A} (f : A -> bool) l a :
  find f l = Some a ->
  exists pre post, l = pre ++ a :: post /\ f a = true /\ Forall (fun b => f b = false) pre.
Proof.
  induction l as [|b l IH]; simpl; intros H; [discriminate|].
  destruct (f b) eqn:E.
  - injection H as <-. exists [], l. auto.
  - destruct (IH H) as (pre & post & -> & Ha & Hpre).
    exists (b :: pre), post. auto.
Qed.

Lemma f64_rows_group_snoc rows r j :
  rows_group (rows ++ [r]) j =
  rows_group rows j ++ (if py_eqb (fst r) j then [snd r] else []).
Proof.
  unfold rows_group. rewrite filter_app, map_app. simpl.
  destruct (py_eqb (fst r) j); reflexivity.
Qed.

(** The invariant of the one-pass accumulation: keys non-NaN and strictly
    increasing; a key is present exactly when some row has it, the group is
    held under the first x value of its rows, and its entry is the state of
    [group_mean] after the group's values, in row order. *)
Lemma f64_groupby_inv rows :
  Forall (fun e => is_nan (fst e) = false) (groupby_mean rows) /\
  StronglySorted key_lt (groupby_mean rows) /\
  forall j,
    match lookup_key j (groupby_mean rows) with
    | None => existsb (fun r => py_eqb (fst r) j) rows = false
    | Some (x, a) =>
        first_key rows j = Some x /\
        a = fold_left kahan_step (rows_group rows j) acc0
    end.
Proof.
  induction rows as [|r rows IH] using rev_ind.
  - split; [constructor|]. split; [constructor|]. intros j; reflexivity.
  - unfold groupby_mean in *. rewrite fold_left_app. simpl.
    set (g := fold_left group_step rows []) in *.
    destruct IH as (Hk & Hs & Hl).
    unfold group_step. destruct r as [x v]. simpl.
    assert (Hfk : forall j x0, first_key rows j = Some x0 ->
                  first_key (rows ++ [(x, v)]) j = Some x0).
    { unfold first_key. intros j x0. rewrite find_app_f64.
      destruct (find _ rows); simpl; [auto|discriminate]. }
    destruct (is_nan x) eqn:Hx.
    + split; [exact Hk|]. split; [exact Hs|]. intros j.
      specialize (Hl j). rewrite existsb_app, f64_rows_group_snoc. simpl.
      rewrite (py_eqb_nan_l _ _ Hx), app_nil_r, orb_false_r.
      destruct (lookup_key j g) as [[x0 a]|]; [|exact Hl].
      destruct Hl as [H1 H2]. auto.
    + split; [apply f64_add_obs_keys_ok; assumption|].
      split; [apply f64_add_obs_sorted; assumption|].
      intros j. rewrite (f64_lookup_add _ _ _ _ Hx Hk Hs), existsb_app, f64_rows_group_snoc.
      simpl. rewrite (py_eqb_sym j x). specialize (Hl j).
      destruct (py_eqb x j) eqn:E.
      * rewrite fold_left_app. destruct (lookup_key j g) as [[x0 a]|].
        -- destruct Hl as [H1 H2]. subst a. auto.
        -- unfold rows_group. rewrite (filter_existsb_false _ _ Hl). simpl.
           split; [|reflexivity]. unfold first_key. rewrite find_app_f64.
           rewrite (find_existsb_f64 _ _ Hl). simpl. rewrite E. reflexivity.
      * rewrite app_nil_r, orb_false_r.
        destruct (lookup_key j g) as [[x0 a]|]; [|exact Hl].
        destruct Hl as [H1 H2]. auto.
Qed.

End Binary64Facts.

Section Binary64Claims.
Import SpecFloat.

Lemma f64_fold_kahan_nan vs a :
  forallb Binary64.is_nan vs = true -> fold_left Binary64.kahan_step vs a = a.
Proof.
  revert a. induction vs as [|v vs IH]; intros a H; simpl in *; [reflexivity|].
  apply andb_true_iff in H. destruct H as [Hv H]. rewrite IH by exact H.
  destruct a as [[sx c] n]. unfold Binary64.kahan_step. rewrite Hv. reflexivity.
Qed.

Lemma f64_key_sorted_map_fst g :
  StronglySorted Binary64.key_lt g ->
  StronglySorted (fun a b => Binary64.py_ltb a b = true) (map fst g).
Proof.
  induction g as [|e g IH]; simpl; intros H; [constructor|].
  inversion H as [|? ? Hs Hf]; subst. constructor; [exact (IH Hs)|].
  apply Forall_map. exact Hf.
Qed.

(** C1 (as amended): for equal-length [X] and [y], [promediar_duplicados]
    returns in [X_unique] the distinct non-NaN values of [X] under [==] (NaN
    keys are dropped) in strictly increasing order, each group under the first
    x value of its rows; [y_avg] has the length of [X_unique], and [y_avg[i]]
    is the mean pandas computes for the group of [X_unique[i]]: the binary64
    Kahan sum of the group's non-NaN [y[j]] in row order divided by their
    count, NaN when the group has no non-NaN value. *)
Theorem promediar_duplicados_groups X y :
  length X = length y ->
  exists xu ya,
    Binary64.promediar_duplicados X y = Ok (xu, ya) /\
    StronglySorted (fun a b => Binary64.py_ltb a b = true) xu /\
    (forall x, In x X -> Binary64.is_nan x = false ->
       exists u, In u xu /\ Binary64.py_eqb x u = true) /\
    (forall u, In u xu -> Binary64.is_nan u = false /\
       exists pre post, X = pre ++ u :: post /\
         Forall (fun x => Binary64.py_eqb x u = false) pre) /\
    length ya = length xu /\
    forall i u, nth_error xu i = Some u ->
      nth_error ya i = Some (Binary64.mean_of (Binary64.group_of X y u)) /\
      (forallb Binary64.is_nan (Binary64.group_of X y u) = true ->
       nth_error ya i = Some Binary64.nan).
Proof.
  intros Hlen. unfold Binary64.promediar_duplicados.
  rewrite (proj2 (Nat.eqb_eq _ _) Hlen).
  set (g := Binary64.groupby_mean (combine X y)).
  destruct (f64_groupby_inv (combine X y)) as (Hk & Hs & Hl). fold g in Hk, Hs, Hl.
  exists (map fst g), (map (fun e => Binary64.group_mean (snd e)) g).
  split; [reflexivity|]. split; [exact (f64_key_sorted_map_fst _ Hs)|].
  split; [|split; [|split]].
  - intros x Hx Hxn. destruct (in_combine_exists _ _ _ Hx Hlen) as [b Hb].
    specialize (Hl x). destruct (Binary64.lookup_key x g) as [[u a]|] eqn:E.
    + destruct (f64_lookup_key_some _ _ _ _ E) as [Hin Hxu].
      exists u. split; [apply (in_map fst) in Hin; exact Hin | exact Hxu].
    + exfalso.
      assert (Hex : existsb (fun r => Binary64.py_eqb (fst r) x) (combine X y) = true).
      { apply existsb_exists. exists (x, b). split; [exact Hb|]. simpl.
        exact (py_eqb_refl _ Hxn). }
      congruence.
  - intros u Hu. apply in_map_iff in Hu. destruct Hu as [e [<- He]].
    specialize (Hl (fst e)). rewrite (f64_lookup_key_in _ _ Hk Hs He) in Hl.
    destruct e as [u a]. destruct Hl as [Hf _]. simpl.
    simpl in Hf. unfold Binary64.first_key in Hf.
    destruct (find (fun r => Binary64.py_eqb (fst r) u) (combine X y)) as [[u' b]|] eqn:E;
      [|discriminate].
    simpl in Hf. injection Hf as ->.
    destruct (find_split_f64 _ _ _ E) as (pre & post & Hc & Hu & Hpre).
    simpl in Hu. split; [exact (proj1 (proj1 (py_eqb_spec _ _) Hu))|].
    exists (map fst pre), (map fst post). split.
    + rewrite <- (map_fst_combine X y Hlen), Hc, map_app. reflexivity.
    + apply Forall_map. exact Hpre.
  - rewrite !length_map. reflexivity.
  - intros i u Hi. rewrite nth_error_map in Hi.
    destruct (nth_error g i) as [e|] eqn:Ei; simpl in Hi; [|discriminate].
    injection Hi as <-.
    rewrite nth_error_map, Ei. simpl.
    specialize (Hl (fst e)).
    rewrite (f64_lookup_key_in _ _ Hk Hs (nth_error_In _ _ Ei)) in Hl.
    destruct e as [u a]. cbn [fst snd] in Hl. destruct Hl as [_ Ha]. subst a.
    split; [reflexivity|]. intros Hn. unfold Binary64.group_of.
    rewrite (f64_fold_kahan_nan _ _ Hn). reflexivity.
Qed.

(** C1 as stated fails: the NaN of [X] is not in [X_unique], and the group of
    key 0.0 holds [1e308], [1e308] and NaN, whose arithmetic mean is NaN, and
    [1e308] without the NaN, while [y_avg] holds [inf]: the binary64 sum
    overflows. *)
Lemma promediar_duplicados_overflow_counterexample :
  let big := Binary64.of_int (10 ^ 308) in
  let X := [Binary64.nan; Binary64.zero; Binary64.zero; Binary64.zero] in
  let y := [Binary64.of_int 1; big; big; Binary64.nan] in
  Binary64.promediar_duplicados X y = Ok ([Binary64.zero], [S754_infinity false]) /\
  In Binary64.nan X /\ ~ In Binary64.nan [Binary64.zero] /\
  Binary64.group_of X y Binary64.zero = [big; big; Binary64.nan] /\
  big <> S754_infinity false.
Proof.
  split; [vm_compute; reflexivity|]. split; [simpl; auto|].
  split; [intros [H|[]]; discriminate|]. split; [vm_compute; reflexivity|].
  vm_compute. discriminate.
Qed.

Lemma promediar_duplicados_groups_witness :
  exists xu ya,
    Binary64.promediar_duplicados
      [Binary64.of_int 1; Binary64.of_int 1; Binary64.of_int 2]
      [Binary64.of_int 10; Binary64.of_int 20; Binary64.of_int 30] = Ok (xu, ya) /\
    length ya = length xu.
Proof.
  destruct (promediar_duplicados_groups
              [Binary64.of_int 1; Binary64.of_int 1; Binary64.of_int 2]
              [Binary64.of_int 10; Binary64.of_int 20; Binary64.of_int 30]
              eq_refl) as (xu & ya & H1 & _ & _ & _ & H5 & _).
  exists xu, ya. split; assumption.
Defined.

(** The mean of 1.0, 2.0 and 4.0 is 7/3 rounded to binary64,
    2.3333333333333335. *)
Example dedup_binary64_rounding :
  Binary64.promediar_duplicados
    [Binary64.of_int 0; Binary64.of_int 0; Binary64.of_int 0]
    [Binary64.of_int 1; Binary64.of_int 2; Binary64.of_int 4] =
  Ok ([Binary64.zero], [S754_finite false 5254199565265579 (-51)]).
Proof. vm_compute. reflexivity. Qed.

End Binary64Claims.

(** ** Witnesses and counterexamples on concrete inputs *)

Lemma predict_unfitted_raises_ValueError_witness :
  predict first_value [] (init 0 3) =
  (Err (ValueError "This model is not fitted yet."%string), init 0 3) /\
  exists m : list pyfloat * list pyfloat, predict first_value [Fin 1]
              (snd (fit data_spline [Fin 0; Fin 1] [Fin 2; Fin 4] (init 0 1))) =
            (Ok (map (first_value m) [Fin 1]),
             snd (fit data_spline [Fin 0; Fin 1] [Fin 2; Fin 4] (init 0 1))).
Proof.
  destruct (predict_unfitted_raises_ValueError data_spline first_value [] ) as [H1 _].
  destruct (predict_unfitted_raises_ValueError data_spline first_value [Fin 1]) as [_ H2].
  split; [apply H1; reflexivity|].
  destruct (H2 (init 0 1) (snd (fit data_spline [Fin 0; Fin 1] [Fin 2; Fin 4] (init 0 1)))
              [Fin 0; Fin 1] [Fin 2; Fin 4]) as [m [_ Hm]];
    [vm_compute; reflexivity|].
  exists m. exact Hm.
Defined.

Lemma promediar_duplicados_idempotent_witness :
  promediar_duplicados [Fin 1; Fin 2] [Fin 15; Fin 30] =
  Ok ([Fin 1; Fin 2], [Fin 15; Fin 30]) /\
  exists ks ya,
    promediar_duplicados [Fin 2; Fin 1] [Fin 7; NaN] = Ok (map Fin ks, ya) /\
    Permutation (combine (map Fin ks) ya) (combine [Fin 2; Fin 1] [Fin 7; NaN]).
Proof.
  split.
  - apply (proj1 (promediar_duplicados_idempotent
                    [Fin 1; Fin 1; Fin 2] [Fin 10; Fin 20; Fin 30])).
    vm_compute. reflexivity.
  - destruct (proj2 (promediar_duplicados_idempotent [Fin 2; Fin 1] [Fin 7; NaN]))
      as (ks & ya & H1 & _ & H3).
    + reflexivity.
    + constructor; [intros [H|[]]; discriminate|].
      constructor; [intros []|constructor].
    + repeat constructor; eexists; split; reflexivity.
    + constructor; [reflexivity|]. constructor; [exact I|constructor].
    + exists ks, ya. split; assumption.
Defined.


Lemma refit_replaces_witness :
  fit data_spline [Fin 5; Fin 6] [Fin 1; Fin 0] (init 0 1) =
  (Ok tt, snd (fit data_spline [Fin 5; Fin 6] [Fin 1; Fin 0]
                 (snd (fit data_spline [Fin 0; Fin 1] [Fin 2; Fin 4] (init 0 1))))).
Proof.
  refine (proj1 (refit_replaces data_spline first_value
                   [Fin 0; Fin 1] [Fin 2; Fin 4] [Fin 5; Fin 6] [Fin 1; Fin 0]
                   (init 0 1)
                   (snd (fit data_spline [Fin 0; Fin 1] [Fin 2; Fin 4] (init 0 1)))
                   _ _ _)); vm_compute; reflexivity.
Defined.

Lemma init_never_validates_witness :
  exists e, fit data_spline [Fin 0; Fin 1] [Fin 0; Fin 1] (init (-1) 3) =
            (Err e, init (-1) 3).
Proof.
  apply (proj2 (proj2 (proj2 (init_never_validates data_spline first_value (-1) 3)))).
  right; right. vm_compute. reflexivity.
Defined.

Lemma promediar_duplicados_empty_and_errors_witness :
  exists e, promediar_duplicados [Fin 1] [] = Err e.
Proof.
  apply (proj2 (proj2 promediar_duplicados_empty_and_errors [Fin 1] [])).
  discriminate.
Defined.

Lemma promediar_duplicados_drops_nan_keys_witness :
  promediar_duplicados [NaN; NaN] [Fin 1; Fin 2] = Ok ([], []) /\
  promediar_duplicados [NaN; Fin 1] [Fin 1; Fin 2] =
  promediar_duplicados [Fin 1] [Fin 2].
Proof.
  split.
  - apply (proj2 (promediar_duplicados_drops_nan_keys [NaN; NaN] [Fin 1; Fin 2] eq_refl)).
    reflexivity.
  - apply (proj1 (promediar_duplicados_drops_nan_keys [NaN; Fin 1] [Fin 1; Fin 2] eq_refl)).
Defined.

(** The scenario of the specification, and a NaN key. *)

Example dedup_spec_scenario :
  promediar_duplicados [Fin 1; Fin 1; Fin 2; Fin 3] [Fin 10; Fin 20; Fin 30; Fin 40]
  = Ok ([Fin 1; Fin 2; Fin 3], [Fin 15; Fin 30; Fin 40]).
Proof. vm_compute. reflexivity. Qed.

Example dedup_nan_key :
  promediar_duplicados [NaN; Fin 2; Fin 1] [Fin 5; NaN; Fin 7]
  = Ok ([Fin 1; Fin 2], [Fin 7; NaN]).
Proof. vm_compute. reflexivity. Qed.

(** ** Further properties of the grouping step and of the estimator *)

(** Two accumulators that are strictly sorted on reduced keys and agree on
    which keys are present hold the same keys in the same order, with
    entries related wherever both lookups succeed. *)
Lemma sorted_groups_Forall2 (R : Q * nat -> Q * nat -> Prop) g1 g2 :
  StronglySorted key_lt g1 -> StronglySorted key_lt g2 ->
  (forall e, In e g1 -> Qred (fst e) = fst e) ->
  (forall e, In e g2 -> Qred (fst e) = fst e) ->
  (forall j, match lookup_key j g1, lookup_key j g2 with
             | None, None => True
             | Some a1, Some a2 => R a1 a2
             | _, _ => False
             end) ->
  Forall2 (fun e1 e2 => fst e1 = fst e2 /\ R (snd e1) (snd e2)) g1 g2.
Proof.
  revert g2. induction g1 as [|[x1 a1] r1 IH]; intros [|[x2 a2] r2] Hs1 Hs2 Hc1 Hc2 H.
  - constructor.
  - specialize (H x2). simpl in H. rewrite Qeq_bool_refl in H. contradiction.
  - specialize (H x1). simpl in H. rewrite Qeq_bool_refl in H. contradiction.
  - inversion Hs1 as [|? ? Hs1' Hf1]; subst. inversion Hs2 as [|? ? Hs2' Hf2]; subst.
    assert (Hle : forall x a r y b,
              StronglySorted key_lt ((x, a) :: r) -> In (y, b) ((x, a) :: r) -> x <= y).
    { intros x a r y b Hs Hin. inversion Hs as [|? ? _ Hf]; subst.
      destruct Hin as [Heq|Hin]; [injection Heq as -> _; apply Qle_refl|].
      apply Qlt_le_weak. exact (proj1 (Forall_forall _ _) Hf _ Hin). }
    assert (Hx : x1 = x2).
    { pose proof (H x1) as H1. pose proof (H x2) as H2.
      assert (E3 : lookup_key x1 ((x1, a1) :: r1) = Some a1)
        by (simpl; rewrite Qeq_bool_refl; reflexivity).
      assert (E4 : lookup_key x2 ((x2, a2) :: r2) = Some a2)
        by (simpl; rewrite Qeq_bool_refl; reflexivity).
      rewrite E3 in H1. rewrite E4 in H2.
      destruct (lookup_key x1 ((x2, a2) :: r2)) as [b2|] eqn:E1; [|contradiction].
      destruct (lookup_key x2 ((x1, a1) :: r1)) as [b1|] eqn:E2; [|contradiction].
      destruct (lookup_key_some _ _ _ E1) as [y2 [Hin2 Hq2]].
      destruct (lookup_key_some _ _ _ E2) as [y1 [Hin1 Hq1]].
      pose proof (Hle _ _ _ _ _ Hs2 Hin2) as L2. pose proof (Hle _ _ _ _ _ Hs1 Hin1) as L1.
      rewrite <- Hq2 in L2. rewrite <- Hq1 in L1.
      pose proof (Hc1 (x1, a1) (or_introl eq_refl)) as C1.
      pose proof (Hc2 (x2, a2) (or_introl eq_refl)) as C2. simpl in C1, C2.
      rewrite <- C1, <- C2.
      apply Qred_complete. apply Qle_antisym; assumption. }
    subst x2. constructor.
    + split; [reflexivity|]. specialize (H x1). simpl in H. rewrite Qeq_bool_refl in H.
      exact H.
    + apply IH; auto.
      * intros e He. apply Hc1. simpl; auto.
      * intros e He. apply Hc2. simpl; auto.
      * intros j. specialize (H j). simpl in H. destruct (Qeq_bool j x1) eqn:E.
        -- qbool E. rewrite !lookup_key_none; [exact I| |];
             intros e He; rewrite E.
           ++ exact (proj1 (Forall_forall _ _) Hf2 e He).
           ++ exact (proj1 (Forall_forall _ _) Hf1 e He).
        -- exact H.
Qed.

Lemma Forall2_map_eq {A B C} (f : A -> C) (h : B -> C) (P : A -> B -> Prop) l1 l2 :
  (forall a b, P a b -> f a = h b) -> Forall2 P l1 l2 -> map f l1 = map h l2.
Proof. intros Hf H. induction H; simpl; f_equal; auto. Qed.

Lemma add_obs_length x v g : (length (add_obs x v g) <= S (length g))%nat.
Proof.
  induction g as [|[x' [sm c]] g IH]; simpl; [lia|].
  destruct (Qeq_bool x x'); simpl; [lia|]. destruct (Qle_bool x x'); simpl; lia.
Qed.

Lemma fold_group_step_length rows g :
  (length (fold_left group_step rows g) <=
   length (filter (fun r => negb (is_nan (fst r))) rows) + length g)%nat.
Proof.
  revert g. induction rows as [|[[q|] v] rows IH]; intros g;
    cbn [fold_left filter fst negb is_nan length]; [lia| |].
  - change (group_step g (Fin q, v)) with (add_obs (Qred q) v g).
    specialize (IH (add_obs (Qred q) v g)). pose proof (add_obs_length (Qred q) v g).
    lia.
  - apply IH.
Qed.

Lemma filter_combine_fst {A B} (f : A -> bool) (X : list A) (Y : list B) :
  length X = length Y ->
  length (filter (fun r => f (fst r)) (combine X Y)) = length (filter f X).
Proof.
  revert Y. induction X as [|a X IH]; intros [|b Y] H; simpl in *; try discriminate; auto.
  destruct (f a); simpl; rewrite IH; auto.
Qed.

Lemma existsb_combine_fst {A B} (f : A -> bool) (X : list A) (Y : list B) :
  length X = length Y ->
  existsb (fun r => f (fst r)) (combine X Y) = existsb f X.
Proof.
  revert Y. induction X as [|a X IH]; intros [|b Y] H; simpl in *; try discriminate; auto.
  rewrite IH; auto.
Qed.

(** X1: [promediar_duplicados] returns two arrays of the same length, never
    longer than the number of non-NaN values of [X]. *)
Theorem promediar_duplicados_length X y xu ya :
  promediar_duplicados X y = Ok (xu, ya) ->
  length xu = length ya /\
  (length xu <= length (filter (fun x => negb (is_nan x)) X))%nat.
Proof.
  intros H. destruct (promediar_duplicados_shape X y) as [[_ E]|[Hlen E]];
    rewrite E in H; [discriminate|]. injection H as <- <-.
  rewrite !length_map. split; [reflexivity|].
  pose proof (fold_group_step_length (combine X y) []) as L.
  rewrite (filter_combine_fst (fun x => negb (is_nan x)) _ _ Hlen) in L.
  unfold groupby_sum. simpl in L. lia.
Qed.

(** X3: [X_unique] depends on [X] alone: two calls with the same [X] and any
    [y] that they accept return the same [X_unique]. *)
Theorem promediar_duplicados_keys_ignore_y X y y' xu ya xu' ya' :
  promediar_duplicados X y = Ok (xu, ya) ->
  promediar_duplicados X y' = Ok (xu', ya') ->
  xu = xu'.
Proof.
  intros H H'.
  destruct (promediar_duplicados_shape X y) as [[_ E]|[Hl E]];
    rewrite E in H; [discriminate|]. injection H as <- _.
  destruct (promediar_duplicados_shape X y') as [[_ E']|[Hl' E']];
    rewrite E' in H'; [discriminate|]. injection H' as <- _.
  destruct (groupby_sum_inv (combine X y)) as (Hs1 & Hc1 & Hk1).
  destruct (groupby_sum_inv (combine X y')) as (Hs2 & Hc2 & Hk2).
  refine (Forall2_map_eq _ _ _ _ _ _
            (sorted_groups_Forall2 (fun _ _ => True) _ _ Hs1 Hs2 Hc1 Hc2 _)).
  - intros a b [Hab _]. rewrite Hab. reflexivity.
  - intros j. specialize (Hk1 j). specialize (Hk2 j).
    rewrite (existsb_combine_fst (fun x => py_eqb x (Fin j)) _ _ Hl) in Hk1.
    rewrite (existsb_combine_fst (fun x => py_eqb x (Fin j)) _ _ Hl') in Hk2.
    destruct (lookup_key j (groupby_sum (combine X y))) as [[sm1 c1]|],
             (lookup_key j (groupby_sum (combine X y'))) as [[sm2 c2]|];
      try exact I.
    + destruct Hk1 as [Hx _]. congruence.
    + destruct Hk2 as [Hx _]. congruence.
Qed.

Section ExtraRegressor.

Context {spline : Type}.
Variable construct : list pyfloat -> list pyfloat -> Q -> Z -> spline.
Variable spline_eval : spline -> pyfloat -> pyfloat.

(** X4: fitting on the output of [promediar_duplicados] has the same outcome
    and leaves the instance in the same state as fitting on the raw data. *)
Theorem fit_deduplicated_data X y xu ya (st : SplineRegressor spline) :
  promediar_duplicados X y = Ok (xu, ya) ->
  fit construct xu ya st = fit construct X y st.
Proof.
  intros H. rewrite !fit_eq, H.
  destruct (promediar_duplicados_output_canonical _ _ _ _ H)
    as (ks & -> & Hlen & Hs & Hc & Hy).
  rewrite (promediar_duplicados_sorted_fixpoint _ _ Hlen Hs Hc Hy). reflexivity.
Qed.

(** X5: [fit] on data without a single non-NaN x value (empty data
    included) always raises and leaves the instance unchanged, whatever the
    hyperparameters. *)
Theorem fit_without_finite_x_raises X y (st : SplineRegressor spline) :
  forallb is_nan X = true ->
  exists e, fit construct X y st = (Err e, st).
Proof.
  intros Hnan. rewrite fit_eq.
  destruct (promediar_duplicados_shape X y) as [[_ ->]|[Hl ->]]; [eexists; reflexivity|].
  cbn [fst snd].
  assert (H0 : length (map (fun e => Fin (fst e)) (groupby_sum (combine X y))) = 0%nat).
  { rewrite length_map. pose proof (fold_group_step_length (combine X y) []) as L.
    rewrite (filter_combine_fst (fun x => negb (is_nan x)) _ _ Hl) in L.
    replace (filter (fun x => negb (is_nan x)) X) with (@nil pyfloat) in L.
    - unfold groupby_sum. simpl in L. lia.
    - symmetry. apply filter_existsb_false. apply not_true_iff_false. intros Hx.
      apply existsb_exists in Hx. destruct Hx as [x [Hin Hx]].
      rewrite forallb_forall in Hnan. rewrite (Hnan x Hin) in Hx. discriminate. }
  destruct (UnivariateSpline_cases construct
              (map (fun e => Fin (fst e)) (groupby_sum (combine X y)))
              (map (fun e => group_mean (snd e)) (groupby_sum (combine X y)))
              st.(s) st.(k)) as [[_ [r ->]] | [Hr _]]; [eexists; reflexivity|].
  exfalso. apply Hr. rewrite H0. unfold spline_rejects. lia.
Qed.

End ExtraRegressor.

Lemma promediar_duplicados_length_witness :
  (length [Fin 1; Fin 2] <= length (filter (fun x => negb (is_nan x)) [Fin 2; NaN; Fin 1; Fin 2]))%nat.
Proof.
  apply (proj2 (promediar_duplicados_length [Fin 2; NaN; Fin 1; Fin 2]
                  [Fin 0; Fin 5; Fin 3; Fin 4] [Fin 1; Fin 2] [Fin 3; Fin 2]
                  ltac:(vm_compute; reflexivity))).
Defined.

Lemma promediar_duplicados_keys_ignore_y_witness :
  [Fin 1; Fin 2] = [Fin 1; Fin 2].
Proof.
  exact (promediar_duplicados_keys_ignore_y [Fin 2; Fin 1] [Fin 0; Fin 0] [NaN; Fin 7]
           [Fin 1; Fin 2] [Fin 0; Fin 0] [Fin 1; Fin 2] [Fin 7; NaN]
           ltac:(vm_compute; reflexivity) ltac:(vm_compute; reflexivity)).
Defined.

Lemma fit_deduplicated_data_witness :
  fit data_spline [Fin 1; Fin 2] [Fin 15; Fin 30] (init 0 1) =
  fit data_spline [Fin 1; Fin 1; Fin 2] [Fin 10; Fin 20; Fin 30] (init 0 1).
Proof.
  apply fit_deduplicated_data. vm_compute. reflexivity.
Defined.

Lemma fit_without_finite_x_raises_witness :
  exists e, fit data_spline [NaN; NaN] [Fin 1; Fin 2] (init 0 1) = (Err e, init 0 1).
Proof. apply fit_without_finite_x_raises. reflexivity. Defined.
